(** * A shallow embedding of [src/common_util.h] (control-flag)

    The header declares the error taxonomy ([cf_*] exceptions and
    [cf_assert]), the memory-managed tree-sitter tree [ManagedTSTree], the
    grammar-parameterised parser entry points [GetTSTree] and collector
    [CollectCodeBlocksOfInterest] (declared only; their definitions live in
    other files of the repository and are modelled from the spec below), and
    the microsecond [Timer]. *)

From Stdlib Require Import ZArith List String Ascii Bool Lia.
Import ListNotations.
Open Scope string_scope.

(* ------------------------------------------------------------------------- *)
(** ** Error taxonomy (lines 36-61) *)

(** The four exception classes; the payload is the constructor argument. *)
Inductive cf_exception : Type :=
| cf_string_exception (message : string)
| cf_file_access_exception (error : string)
| cf_parse_error (expression : string)
| cf_unexpected_situation (error : string).

(** [message_]: the message each constructor stores in the
    [cf_string_exception] base (lines 38-60). *)
Definition message_ (e : cf_exception) : string :=
  match e with
  | cf_string_exception m => m
  | cf_file_access_exception err => "File access failed: " ++ err
  | cf_parse_error expr => "Parse error in expression:" ++ expr
  | cf_unexpected_situation err => "Assert failed: " ++ err
  end.

(** The C string [c_str()] denotes: the characters before the first NUL. *)
Fixpoint c_str_view (s : string) : string :=
  match s with
  | EmptyString => EmptyString
  | String c r => if Ascii.eqb c zero then EmptyString else String c (c_str_view r)
  end.

(** [what()] (line 40): [message_.c_str()], read as a C string. *)
Definition what (e : cf_exception) : string := c_str_view (message_ e).

(** Outcome of a C++ call: it returns, throws one of the exceptions above,
    or faults (undefined behaviour, e.g. dereferencing an invalid handle). *)
Inductive outcome (A : Type) : Type :=
| Returns (a : A)
| Throws (e : cf_exception)
| Faults.
Arguments Returns {A} a.
Arguments Throws {A} e.
Arguments Faults {A}.

Definition bind {A B} (m : outcome A) (k : A -> outcome B) : outcome B :=
  match m with
  | Returns a => k a
  | Throws e => Throws e
  | Faults => Faults
  end.

Notation "x <- m ;; k" := (bind m (fun x => k))
  (at level 61, m at next level, right associativity).

(** ** Syntax trees of the external engine (tree-sitter)

    A node handle is modelled by the subtree it denotes: its kind, its byte
    range in the source, and its children in order. A tree is a handle
    (identity of the allocation) and its root node. *)
#[warnings="-register-all"]
Inductive cst : Type :=
| CNode (kind : string) (start_byte end_byte : nat) (children : list cst).

Definition TSNode := cst.
Definition code_block_t := TSNode.
Definition code_blocks_t := list TSNode.

Record TSTree : Type := mkTSTree { tree_handle : nat; tree_root : TSNode }.

(** [cf_assert(bool, const std::string&)] (lines 63-65). *)
Definition cf_assert (value : bool) (message : string) : outcome unit :=
  if Bool.eqb value false then Throws (cf_unexpected_situation message)
  else Returns tt.

Section NodeString.
(** [ts_node_string] of the external engine: [Some s] is the printed form;
    [None] stands for a handle the call cannot read (null node, node of a
    released tree), where the call faults. *)
Variable ts_node_string : TSNode -> option string.

(** [cf_assert(bool, const std::string&, const TSNode&)] (lines 67-70):
    the argument [message + ts_node_string(node)] is built before the
    call, whatever [value] is. *)
Definition cf_assert_node (value : bool) (message : string) (node : TSNode)
  : outcome unit :=
  match ts_node_string node with
  | Some s => cf_assert value (message ++ s)
  | None => Faults
  end.
End NodeString.

(* ------------------------------------------------------------------------- *)
(** ** Timer (lines 109-148) *)

Local Open Scope Z_scope.

(** [struct timeval]; [time_t] and [suseconds_t] are [long] (64 bits). *)
Record timeval : Type := mkTimeval { tv_sec : Z; tv_usec : Z }.

Record Timer : Type := mkTimer { start_tv_ : timeval; end_tv_ : timeval }.

Definition long_min : Z := - 2 ^ 63.
Definition long_max : Z := 2 ^ 63 - 1.

(** Signed [long] arithmetic: an out-of-range result is undefined behaviour,
    modelled as [None]. *)
Definition long_checked (z : Z) : option Z :=
  if (long_min <=? z) && (z <=? long_max) then Some z else None.

Definition kMicroSecs : Z := 1000000.

(** The lambda [timeval2microsec] (lines 123-125). *)
Definition timeval2microsec (tv : timeval) : option Z :=
  match long_checked (tv_sec tv * kMicroSecs) with
  | Some p => long_checked (p + tv_usec tv)
  | None => None
  end.

(** [TimerDiffToTimeval] (lines 121-132); C++ [/] and [%] truncate toward
    zero, i.e. [Z.quot] and [Z.rem]. *)
Definition TimerDiffToTimeval (t : Timer) : option timeval :=
  match timeval2microsec (end_tv_ t), timeval2microsec (start_tv_ t) with
  | Some e, Some s =>
      match long_checked (e - s) with
      | Some diff_microsec =>
          Some (mkTimeval (Z.quot diff_microsec kMicroSecs)
                          (Z.rem diff_microsec kMicroSecs))
      | None => None
      end
  | _, _ => None
  end.

(** [operator<<(long)] of an [ostringstream]: decimal digits, with a leading
    ['-'] for a negative value. 20 digits suffice for a [long]. *)
Definition digit_char (d : Z) : ascii := ascii_of_nat (48 + Z.to_nat d).

Fixpoint digits_aux (fuel : nat) (n : Z) (acc : string) : string :=
  match fuel with
  | O => acc
  | S f =>
      let acc' := String (digit_char (n mod 10)) acc in
      if n <? 10 then acc' else digits_aux f (n / 10) acc'
  end.

Definition print_long (n : Z) : string :=
  if n <? 0 then String "-" (digits_aux 20 (- n) "")
  else digits_aux 20 n "".

(** [width(w)] with [fill(c)] and the default (right) adjustment: the
    fill characters go before the printed value. *)
Definition pad_left (w : nat) (c : ascii) (s : string) : string :=
  append (String.concat "" (repeat (String c "") (w - String.length s))) s.

(** The body of [TimerDiff] after its first line (lines 136-142): the
    [width(3)] applies to the next insertion only, the milliseconds. *)
Definition format_timeval (diff_tv : timeval) : string :=
  append (append (print_long (tv_sec diff_tv)) ".")
         (pad_left 3 "0" (print_long (Z.quot (tv_usec diff_tv) 1000))).

(** [TimerDiff] (lines 134-143). *)
Definition TimerDiff (t : Timer) : option string :=
  match TimerDiffToTimeval t with
  | Some diff_tv => Some (format_timeval diff_tv)
  | None => None
  end.

(** One call of [gettimeofday(&tv, NULL)]: its return code and, when it
    writes its argument, the time it writes. *)
Record gettimeofday_call : Type :=
  mkGettimeofday { gtod_rc : Z; gtod_tv : option timeval }.

Definition write_tv (c : gettimeofday_call) (old : timeval) : timeval :=
  match gtod_tv c with Some tv => tv | None => old end.

(** [StartTimer] (lines 111-114). *)
Definition StartTimer (c : gettimeofday_call) (t : Timer) : Z * Timer :=
  (gtod_rc c, mkTimer (write_tv c (start_tv_ t)) (end_tv_ t)).

(** [StopTimer] (lines 116-119). *)
Definition StopTimer (c : gettimeofday_call) (t : Timer) : Z * Timer :=
  (gtod_rc c, mkTimer (start_tv_ t) (write_tv c (end_tv_ t))).

Local Close Scope Z_scope.

(* ------------------------------------------------------------------------- *)
(** ** ManagedTSTree (lines 79-85)

    [std::unique_ptr<TSTree, TSTreeDeleter>]: the stored pointer ([None] is
    [nullptr]). The engine's state is the log of [ts_tree_delete] calls. *)
Definition ManagedTSTree := option TSTree.

Definition deletion_log := list TSTree.

(** [TSTreeDeleter::operator()] (lines 81-83): one [ts_tree_delete] call. *)
Definition TSTreeDeleter (tree : TSTree) (log : deletion_log) : deletion_log :=
  app log [tree].

(** [~unique_ptr] as libstdc++ writes it: call the deleter when the pointer
    is not null, then store [nullptr]. *)
Definition unique_ptr_destroy (p : ManagedTSTree) (log : deletion_log)
  : ManagedTSTree * deletion_log :=
  match p with
  | Some tree => (None, TSTreeDeleter tree log)
  | None => (None, log)
  end.

(** [unique_ptr::reset()]: store [nullptr], then call the deleter on the old
    pointer when it was not null. *)
Definition unique_ptr_reset (p : ManagedTSTree) (log : deletion_log)
  : ManagedTSTree * deletion_log :=
  match p with
  | Some old => (None, TSTreeDeleter old log)
  | None => (None, log)
  end.

(** [unique_ptr::release()]: give up ownership without deleting. *)
Definition unique_ptr_release (p : ManagedTSTree) : option TSTree * ManagedTSTree :=
  (p, None).

(** [unique_ptr::reset(q)]: store [q], then call the deleter on the old
    pointer when it was not null. *)
Definition unique_ptr_reset_to (p q : ManagedTSTree) (log : deletion_log)
  : ManagedTSTree * deletion_log :=
  match p with
  | Some old => (q, TSTreeDeleter old log)
  | None => (q, log)
  end.

(** Move construction [ManagedTSTree dst(std::move(src))]: the new holder
    takes [src.release()]; the result is the pair (new holder, source). *)
Definition unique_ptr_move_construct (src : ManagedTSTree)
  : ManagedTSTree * ManagedTSTree :=
  unique_ptr_release src.

(** Move assignment [dst = std::move(src)] of two distinct holders, as
    libstdc++ writes it: [dst.reset(src.release())]. The result is
    (destination, source, log). *)
Definition unique_ptr_move_assign (dst src : ManagedTSTree) (log : deletion_log)
  : ManagedTSTree * ManagedTSTree * deletion_log :=
  let '(moved, src') := unique_ptr_release src in
  let '(dst', log') := unique_ptr_reset_to dst moved log in
  (dst', src', log').

(* ------------------------------------------------------------------------- *)
(** ** Parser entry points and collector (lines 87-104)

    The header only declares these templates; their definitions are in
    files of the repository that are not part of this development. *)

(** Pre-order, depth-first listing of the nodes of a subtree. *)
Fixpoint preorder (n : TSNode) : list TSNode :=
  match n with
  | CNode _ _ _ cs =>
      n :: (fix go (cs : list cst) : list TSNode :=
              match cs with
              | [] => []
              | c :: r => app (preorder c) (go r)
              end) cs
  end.

Definition node_kind (n : TSNode) : string :=
  match n with CNode k _ _ _ => k end.

(** Nodes the engine inserts where it could not parse. *)
Definition is_error_node (n : TSNode) : bool := String.eqb (node_kind n) "ERROR".

(** The first error node of a subtree, in pre-order. *)
Definition first_error_node (n : TSNode) : option TSNode :=
  find is_error_node (preorder n).

Definition has_error (n : TSNode) : bool :=
  match first_error_node n with Some _ => true | None => false end.

(** The source text a node spans. *)
Definition node_text (source : string) (n : TSNode) : string :=
  match n with CNode _ s e _ => substring s (e - s) source end.

Section EntryPoints.
(** The grammar identifiers ([Language] of [parser.h]). *)
Variable Language : Type.
(** The external engine's parse operation, for one grammar: [Some] the
    tree handle, [None] when the engine produces no tree. *)
Variable ts_parse : Language -> string -> option TSTree.
(** Reading a whole file: [inl] an I/O error description, [inr] the bytes. *)
Variable read_file : string -> string + string.
(** The per-grammar interest predicate of the collector. *)
Variable is_of_interest : Language -> TSNode -> bool.

(** Modelled from the spec: the definition of the string overload of
    [GetTSTree] (line 95), missing from the sources. It runs the engine for
    grammar [L]; when the engine produces no tree it throws a
    [cf_parse_error] carrying the source text; otherwise, with
    [report_parse_errors] it throws a [cf_parse_error] carrying the text of
    the first error node, and without it returns the tree uninspected. *)
Definition GetTSTree_string (L : Language) (source_code : string)
  (report_parse_errors : bool) : outcome ManagedTSTree :=
  match ts_parse L source_code with
  | None => Throws (cf_parse_error source_code)
  | Some tree =>
      if report_parse_errors then
        match first_error_node (tree_root tree) with
        | Some bad => Throws (cf_parse_error (node_text source_code bad))
        | None => Returns (Some tree)
        end
      else Returns (Some tree)
  end.

(** The call with the declared default argument [report_parse_errors = false]. *)
Definition GetTSTree_string_default (L : Language) (source_code : string)
  : outcome ManagedTSTree :=
  GetTSTree_string L source_code false.

(** Modelled from the spec: the definition of the file overload of
    [GetTSTree] (line 90), missing from the sources. It reads the file,
    throws [cf_file_access_exception] when the read fails, and otherwise
    delegates to the string overload and hands back the contents through
    [source_file_contents]. *)
Definition GetTSTree_file (L : Language) (source_file : string)
  : outcome (ManagedTSTree * string) :=
  match read_file source_file with
  | inl error => Throws (cf_file_access_exception error)
  | inr source_file_contents =>
      tree <- GetTSTree_string_default L source_file_contents ;;
      Returns (tree, source_file_contents)
  end.

(** Modelled from the spec: the definition of the node overload of
    [CollectCodeBlocksOfInterest] (line 99), missing from the sources. A
    pre-order, depth-first walk that appends every node of interest for
    grammar [G] to [code_blocks]. *)
Fixpoint CollectCodeBlocksOfInterest (G : Language) (root_node : TSNode)
  (code_blocks : code_blocks_t) : code_blocks_t :=
  match root_node with
  | CNode _ _ _ cs =>
      let acc := if is_of_interest G root_node
                 then app code_blocks [root_node] else code_blocks in
      (fix go (cs : list cst) (acc : code_blocks_t) : code_blocks_t :=
         match cs with
         | [] => acc
         | c :: r => go r (CollectCodeBlocksOfInterest G c acc)
         end) cs acc
  end.

(** Modelled from the spec: the tree overload of
    [CollectCodeBlocksOfInterest] (line 103), missing from the sources. An
    empty holder fails the invariant guard; otherwise the walk starts at
    the root. *)
Definition CollectCodeBlocksOfInterest_tree (G : Language)
  (tree : ManagedTSTree) (code_blocks : code_blocks_t)
  : outcome code_blocks_t :=
  _ <- cf_assert (match tree with Some _ => true | None => false end)
         "tree has no root" ;;
  match tree with
  | Some t => Returns (CollectCodeBlocksOfInterest G (tree_root t) code_blocks)
  | None => Faults
  end.
End EntryPoints.

Arguments GetTSTree_string {Language} ts_parse L source_code report_parse_errors.
Arguments GetTSTree_string_default {Language} ts_parse L source_code.
Arguments GetTSTree_file {Language} ts_parse read_file L source_file.
Arguments CollectCodeBlocksOfInterest {Language} is_of_interest G root_node code_blocks.
Arguments CollectCodeBlocksOfInterest_tree {Language} is_of_interest G tree code_blocks.

(* ------------------------------------------------------------------------- *)
(** ** Auxiliary predicates for the timer *)

Local Open Scope Z_scope.

(** The microsecond count a timestamp denotes, without machine limits. *)
Definition total_microsec (tv : timeval) : Z := tv_sec tv * kMicroSecs + tv_usec tv.

(** A timestamp [gettimeofday] can write: non-negative seconds, microseconds
    in [0, 10^6), and a microsecond count that a [long] holds (any date
    before the year 294000). *)
Definition clock_reading (tv : timeval) : Prop :=
  0 <= tv_sec tv /\ 0 <= tv_usec tv < kMicroSecs /\ total_microsec tv <= long_max.

(** The trees a holder owns: one or none. *)
Definition held_trees (p : ManagedTSTree) : list TSTree :=
  match p with Some tree => [tree] | None => [] end.



(** Whether a string holds a NUL character. *)
Fixpoint has_nul (s : string) : bool :=
  match s with
  | EmptyString => false
  | String c r => Ascii.eqb c zero || has_nul r
  end.

(** Reading back the output of [TimerDiff]: the decimal digits before the
    dot and those after it. [read_digits s acc] consumes the leading digits
    of [s], accumulating their value onto [acc], and returns the rest. *)
Definition digit_value (c : ascii) : option Z :=
  let n := nat_of_ascii c in
  if (48 <=? n)%nat && (n <=? 57)%nat then Some (Z.of_nat n - 48) else None.

Fixpoint read_digits (s : string) (acc : Z) : Z * string :=
  match s with
  | EmptyString => (acc, EmptyString)
  | String c r =>
      match digit_value c with
      | Some d => read_digits r (acc * 10 + d)
      | None => (acc, s)
      end
  end.

(** [Some (seconds, milliseconds)] for a string of the shape
    digits "." three-digits, [None] otherwise. *)
Definition read_timer_diff (s : string) : option (Z * Z) :=
  match s with
  | String c _ =>
      match digit_value c, read_digits s 0 with
      | Some _, (secs, String "."%char r) =>
          if Nat.eqb (String.length r) 3 then
            match read_digits r 0 with
            | (millis, EmptyString) => Some (secs, millis)
            | _ => None
            end
          else None
      | _, _ => None
      end
  | EmptyString => None
  end.

Local Close Scope Z_scope.

(* ========================================================================= *)
(** * Theorems *)

(** ** ManagedTSTree *)

(** C1: destroying the holder calls [ts_tree_delete] once on the tree it
    holds and not at all when it is empty; afterwards it is empty, so a
    second destruction (or one after [reset] or [release]) does nothing. *)
Theorem ManagedTSTree_destroy_exactly_once :
  forall (p : ManagedTSTree) (log : deletion_log),
    let '(p1, log1) := unique_ptr_destroy p log in
    log1 = app log (match p with Some tree => [tree] | None => [] end) /\
    p1 = None /\
    unique_ptr_destroy p1 log1 = (p1, log1) /\
    (let '(p2, log2) := unique_ptr_reset p log in
     unique_ptr_destroy p2 log2 = (p2, log2)) /\
    unique_ptr_destroy (snd (unique_ptr_release p)) log = (None, log).
Proof.
  intros p log; destruct p as [tree|]; cbn; rewrite ?app_nil_r;
    repeat split; reflexivity.
Qed.

(** ** cf_assert *)

(** C5: [cf_assert] throws [cf_unexpected_situation] carrying the message
    exactly when the condition is false and otherwise returns normally; the
    node overload, on a node the engine can print as [text], does the same
    with [message + text]. *)
Theorem cf_assert_throws_iff_false
  (ts_node_string : TSNode -> option string) (node : TSNode) (text : string)
  (Hvalid : ts_node_string node = Some text) :
  (forall value message e,
      cf_assert value message = Throws e <->
      value = false /\ e = cf_unexpected_situation message) /\
  (forall message, cf_assert true message = Returns tt) /\
  (forall value message e,
      cf_assert_node ts_node_string value message node = Throws e <->
      value = false /\ e = cf_unexpected_situation (message ++ text)) /\
  (forall message, cf_assert_node ts_node_string true message node = Returns tt).
Proof.
  unfold cf_assert_node; rewrite Hvalid.
  assert (Hs : forall value message e,
             cf_assert value message = Throws e <->
             value = false /\ e = cf_unexpected_situation message).
  { intros [|] message e; cbn; split.
    - discriminate.
    - intros [H _]; discriminate.
    - intros H; inversion H; split; reflexivity.
    - intros [_ ->]; reflexivity. }
  split; [exact Hs|].
  split; [reflexivity|].
  split; [intros; apply Hs | reflexivity].
Qed.

Lemma cf_assert_throws_iff_false_witness :
  (fun _ : TSNode => Some "x") (CNode "x" 0 0 []) = Some "x" /\
  cf_assert_node (fun _ => Some "x") false "bad node: " (CNode "x" 0 0 [])
    = Throws (cf_unexpected_situation "bad node: x").
Proof.
  split; [reflexivity|].
  apply (proj1 (proj2 (proj2 (cf_assert_throws_iff_false
                                (fun _ => Some "x") (CNode "x" 0 0 []) "x"
                                eq_refl))));
    split; reflexivity.
Defined.

(** C9: the node overload is the string overload applied to the message
    followed by the node's printed form; the printing happens before the
    condition is looked at, so even with a true condition it returns
    normally only when the node can be printed, and faults otherwise. *)
Theorem cf_assert_node_prints_unconditionally :
  forall (ts_node_string : TSNode -> option string) value message node,
    ((exists s, ts_node_string node = Some s /\
                cf_assert_node ts_node_string value message node =
                cf_assert value (message ++ s)) \/
     (ts_node_string node = None /\
      cf_assert_node ts_node_string value message node = Faults)) /\
    (cf_assert_node ts_node_string true message node = Returns tt <->
     exists s, ts_node_string node = Some s).
Proof.
  intros tns value message node; unfold cf_assert_node.
  destruct (tns node) as [s|] eqn:E.
  - split; [left; exists s; split; reflexivity|].
    split; [intros _; exists s; reflexivity | intros _; reflexivity].
  - split; [right; split; reflexivity|].
    split; [discriminate | intros [s Hs]; discriminate].
Qed.

(** ** Timer *)

Local Open Scope Z_scope.

Lemma long_checked_in_range (z : Z) :
  long_min <= z <= long_max -> long_checked z = Some z.
Proof.
  intros [H1 H2]; unfold long_checked.
  rewrite (proj2 (Z.leb_le _ _) H1), (proj2 (Z.leb_le _ _) H2); reflexivity.
Qed.

Lemma long_bounds : long_min = - long_max - 1 /\ 0 < long_max.
Proof. unfold long_min, long_max; cbn; lia. Qed.

Lemma timeval2microsec_clock_reading (tv : timeval) :
  clock_reading tv -> timeval2microsec tv = Some (total_microsec tv).
Proof.
  intros (Hs & Hu & Hmax); unfold timeval2microsec, total_microsec in *.
  pose proof long_bounds as Hb; unfold kMicroSecs in *.
  rewrite long_checked_in_range by nia.
  apply long_checked_in_range; lia.
Qed.

Lemma TimerDiffToTimeval_clock_readings (t : Timer) :
  clock_reading (start_tv_ t) -> clock_reading (end_tv_ t) ->
  TimerDiffToTimeval t =
  Some (mkTimeval
          (Z.quot (total_microsec (end_tv_ t) - total_microsec (start_tv_ t)) kMicroSecs)
          (Z.rem (total_microsec (end_tv_ t) - total_microsec (start_tv_ t)) kMicroSecs)).
Proof.
  intros Hs He; unfold TimerDiffToTimeval.
  rewrite (timeval2microsec_clock_reading _ Hs), (timeval2microsec_clock_reading _ He).
  pose proof long_bounds as Hb.
  destruct Hs as (Hs1 & Hs2 & Hs3), He as (He1 & He2 & He3).
  assert (0 <= total_microsec (start_tv_ t)) by (unfold total_microsec, kMicroSecs in *; nia).
  assert (0 <= total_microsec (end_tv_ t)) by (unfold total_microsec, kMicroSecs in *; nia).
  rewrite long_checked_in_range by lia; reflexivity.
Qed.

(** C6: for two clock readings with the stop count at least the start
    count, the difference is a normalised pair: non-negative seconds and
    microseconds in [0, 10^6) that together make up the difference, also
    when the stop microseconds are below the start microseconds. *)
Theorem TimerDiffToTimeval_normalized (t : Timer)
  (Hstart : clock_reading (start_tv_ t)) (Hstop : clock_reading (end_tv_ t))
  (Horder : total_microsec (start_tv_ t) <= total_microsec (end_tv_ t)) :
  exists diff_tv,
    TimerDiffToTimeval t = Some diff_tv /\
    0 <= tv_sec diff_tv /\ 0 <= tv_usec diff_tv < kMicroSecs /\
    total_microsec diff_tv = total_microsec (end_tv_ t) - total_microsec (start_tv_ t).
Proof.
  rewrite (TimerDiffToTimeval_clock_readings t Hstart Hstop).
  eexists; split; [reflexivity|]; cbn.
  set (d := total_microsec (end_tv_ t) - total_microsec (start_tv_ t)).
  assert (Hd : 0 <= d) by (unfold d; lia).
  unfold total_microsec; cbn.
  rewrite (Z.quot_div_nonneg d kMicroSecs), (Z.rem_mod_nonneg d kMicroSecs)
    by (unfold kMicroSecs; lia).
  pose proof (Z.mod_pos_bound d kMicroSecs) as Hm.
  pose proof (Z.div_mod d kMicroSecs) as Hdm.
  unfold kMicroSecs in *.
  split; [apply Z.div_pos; lia|]; split; [lia|]; lia.
Qed.

(** Stop at 12.200000 s, start at 10.700000 s: the microseconds borrow. *)
Lemma TimerDiffToTimeval_normalized_witness :
  clock_reading (mkTimeval 10 700000) /\ clock_reading (mkTimeval 12 200000) /\
  exists diff_tv,
    TimerDiffToTimeval (mkTimer (mkTimeval 10 700000) (mkTimeval 12 200000)) = Some diff_tv /\
    0 <= tv_sec diff_tv /\ 0 <= tv_usec diff_tv < kMicroSecs /\
    total_microsec diff_tv = 1500000.
Proof.
  assert (H1 : clock_reading (mkTimeval 10 700000))
    by (unfold clock_reading, total_microsec, kMicroSecs, long_max; cbn; lia).
  assert (H2 : clock_reading (mkTimeval 12 200000))
    by (unfold clock_reading, total_microsec, kMicroSecs, long_max; cbn; lia).
  split; [exact H1|]; split; [exact H2|].
  apply (TimerDiffToTimeval_normalized
           (mkTimer (mkTimeval 10 700000) (mkTimeval 12 200000)) H1 H2).
  unfold total_microsec, kMicroSecs; cbn; lia.
Defined.

Lemma digits_aux_last (f : nat) (n : Z) (acc : string) :
  0 <= n < 10 -> digits_aux (S f) n acc = String (digit_char n) acc.
Proof.
  intros Hn; cbn [digits_aux].
  rewrite (proj2 (Z.ltb_lt n 10)) by lia.
  rewrite Z.mod_small by lia; reflexivity.
Qed.

Lemma digits_aux_step (f : nat) (n : Z) (acc : string) :
  10 <= n ->
  digits_aux (S f) n acc = digits_aux f (n / 10) (String (digit_char (n mod 10)) acc).
Proof.
  intros Hn; cbn [digits_aux].
  rewrite (proj2 (Z.ltb_ge n 10)) by lia; reflexivity.
Qed.

(** A value below 1000 printed with [width(3)] and [fill('0')] is its three
    decimal digits. *)
Lemma pad_left_three_digits (m : Z) :
  0 <= m < 1000 ->
  pad_left 3 "0" (print_long m) =
  String (digit_char (m / 100))
    (String (digit_char ((m / 10) mod 10)) (String (digit_char (m mod 10)) "")).
Proof.
  intros Hm; unfold print_long.
  rewrite (proj2 (Z.ltb_ge m 0)) by lia.
  destruct (Z.lt_ge_cases m 10) as [H1|H1].
  - rewrite digits_aux_last by lia.
    rewrite (Z.div_small m 100), (Z.div_small m 10), (Z.mod_small m 10) by lia.
    reflexivity.
  - rewrite digits_aux_step by lia.
    destruct (Z.lt_ge_cases m 100) as [H2|H2].
    + rewrite digits_aux_last by (split; [apply Z.div_pos|apply Z.div_lt_upper_bound]; lia).
      rewrite (Z.div_small m 100) by lia.
      rewrite (Z.mod_small (m / 10) 10)
        by (split; [apply Z.div_pos|apply Z.div_lt_upper_bound]; lia).
      reflexivity.
    + rewrite digits_aux_step by (apply Z.div_le_lower_bound; lia).
      rewrite digits_aux_last
        by (rewrite Z.div_div by lia;
            split; [apply Z.div_pos|apply Z.div_lt_upper_bound]; lia).
      rewrite Z.div_div by lia; reflexivity.
Qed.

(** C7: a normalised non-negative difference is printed as its seconds, a
    dot, and the milliseconds (microseconds divided by 1000, truncated) as
    exactly three zero-padded decimal digits; 1,500,000 microseconds give
    "1.500". *)
Theorem TimerDiff_seconds_dot_millis (t : Timer) (diff_tv : timeval)
  (Hdiff : TimerDiffToTimeval t = Some diff_tv)
  (Hsec : 0 <= tv_sec diff_tv) (Husec : 0 <= tv_usec diff_tv < kMicroSecs) :
  (exists d1 d2 d3,
      0 <= d1 <= 9 /\ 0 <= d2 <= 9 /\ 0 <= d3 <= 9 /\
      100 * d1 + 10 * d2 + d3 = Z.quot (tv_usec diff_tv) 1000 /\
      TimerDiff t =
      Some (append (append (print_long (tv_sec diff_tv)) ".")
              (String (digit_char d1) (String (digit_char d2)
                 (String (digit_char d3) ""))))) /\
  (total_microsec diff_tv = 1500000 -> TimerDiff t = Some "1.500").
Proof.
  unfold TimerDiff; rewrite Hdiff.
  unfold kMicroSecs in Husec.
  set (m := Z.quot (tv_usec diff_tv) 1000).
  assert (Hm : 0 <= m < 1000).
  { unfold m; rewrite Z.quot_div_nonneg by lia.
    split; [apply Z.div_pos|apply Z.div_lt_upper_bound]; lia. }
  split.
  - exists (m / 100), ((m / 10) mod 10), (m mod 10).
    pose proof (Z.div_mod m 10 ltac:(lia)) as E1.
    pose proof (Z.div_mod (m / 10) 10 ltac:(lia)) as E2.
    rewrite Z.div_div in E2 by lia; change (10 * 10) with 100 in E2.
    pose proof (Z.mod_pos_bound m 10 ltac:(lia)).
    pose proof (Z.mod_pos_bound (m / 10) 10 ltac:(lia)).
    assert (0 <= m / 100) by (apply Z.div_pos; lia).
    assert (m / 100 < 10) by (apply Z.div_lt_upper_bound; lia).
    split; [lia|]; split; [lia|]; split; [lia|]; split; [lia|].
    unfold format_timeval; fold m; rewrite pad_left_three_digits by exact Hm.
    reflexivity.
  - intros Htot; unfold total_microsec, kMicroSecs in Htot.
    assert (tv_sec diff_tv = 1 /\ tv_usec diff_tv = 500000) as [Hs Hu] by lia.
    unfold format_timeval; rewrite Hs, Hu; reflexivity.
Qed.

Lemma TimerDiff_seconds_dot_millis_witness :
  TimerDiffToTimeval (mkTimer (mkTimeval 10 700000) (mkTimeval 12 200000))
    = Some (mkTimeval 1 500000) /\
  TimerDiff (mkTimer (mkTimeval 10 700000) (mkTimeval 12 200000)) = Some "1.500".
Proof.
  split; [reflexivity|].
  apply (proj2 (TimerDiff_seconds_dot_millis
                  (mkTimer (mkTimeval 10 700000) (mkTimeval 12 200000))
                  (mkTimeval 1 500000) eq_refl ltac:(cbn; lia)
                  ltac:(unfold kMicroSecs; cbn; lia))).
  reflexivity.
Defined.

(** C8: [TimerDiffToTimeval] does not check the order of the two
    timestamps: with a stop reading 1.5 s before the start reading it
    returns, without any failure, an interval whose seconds and microseconds
    are both negative. *)
Theorem TimerDiffToTimeval_unchecked_order :
  exists t diff_tv,
    clock_reading (start_tv_ t) /\ clock_reading (end_tv_ t) /\
    total_microsec (end_tv_ t) < total_microsec (start_tv_ t) /\
    TimerDiffToTimeval t = Some diff_tv /\
    tv_sec diff_tv < 0 /\ tv_usec diff_tv < 0.
Proof.
  exists (mkTimer (mkTimeval 3 0) (mkTimeval 1 500000)), (mkTimeval (-1) (-500000)).
  unfold clock_reading, total_microsec, kMicroSecs, long_max; cbn.
  repeat split; try lia; reflexivity.
Qed.

(** C10: [StartTimer] returns the return code of [gettimeofday] and changes
    only the start timestamp; [StopTimer] likewise for the stop timestamp; in
    particular restarting a timer keeps the stop timestamp it had. *)
Theorem StartTimer_StopTimer_frame :
  forall (c : gettimeofday_call) (t : Timer),
    fst (StartTimer c t) = gtod_rc c /\
    start_tv_ (snd (StartTimer c t)) = write_tv c (start_tv_ t) /\
    end_tv_ (snd (StartTimer c t)) = end_tv_ t /\
    fst (StopTimer c t) = gtod_rc c /\
    end_tv_ (snd (StopTimer c t)) = write_tv c (end_tv_ t) /\
    start_tv_ (snd (StopTimer c t)) = start_tv_ t /\
    (forall c1 c2 c3,
        end_tv_ (snd (StartTimer c3 (snd (StopTimer c2 (snd (StartTimer c1 t))))))
        = end_tv_ (snd (StopTimer c2 (snd (StartTimer c1 t))))).
Proof.
  intros c t; repeat split; reflexivity.
Qed.

Local Close Scope Z_scope.

(** ** Parser entry points *)

(** C2: when the file can be read, the file overload has the outcome the
    string overload (with its default argument) has on the file's contents:
    it returns a tree together with exactly those contents when the string
    overload returns that tree, and throws what the string overload throws
    otherwise; when the read fails it throws a [cf_file_access_exception]
    carrying the I/O error. *)
Theorem GetTSTree_file_delegates :
  forall (Language : Type) (ts_parse : Language -> string -> option TSTree)
         (read_file : string -> string + string) (L : Language) (path : string),
    match read_file path with
    | inr contents =>
        (forall tree source_file_contents,
            GetTSTree_file ts_parse read_file L path = Returns (tree, source_file_contents) <->
            GetTSTree_string_default ts_parse L contents = Returns tree /\
            source_file_contents = contents) /\
        (forall e,
            GetTSTree_file ts_parse read_file L path = Throws e <->
            GetTSTree_string_default ts_parse L contents = Throws e) /\
        (GetTSTree_file ts_parse read_file L path = Faults <->
         GetTSTree_string_default ts_parse L contents = Faults)
    | inl error =>
        GetTSTree_file ts_parse read_file L path =
        Throws (cf_file_access_exception error)
    end.
Proof.
  intros Language ts_parse read_file L path.
  unfold GetTSTree_file.
  destruct (read_file path) as [error|contents]; [reflexivity|].
  destruct (GetTSTree_string_default ts_parse L contents) as [tree|e|]; cbn;
    repeat split; intros;
    repeat match goal with
      | H : _ /\ _ |- _ => destruct H
      | H : Returns _ = Returns _ |- _ => inversion H; clear H
      | H : Throws _ = Throws _ |- _ => inversion H; clear H
      end;
    subst; try discriminate; reflexivity.
Qed.


(** C3 as stated fails: an engine that produces no tree makes the string
    overload throw a [cf_parse_error] although [report_parse_errors] is
    false. *)
Lemma GetTSTree_string_engine_failure :
  GetTSTree_string (fun (_ : unit) (_ : string) => @None TSTree) tt "int x" false
    = Throws (cf_parse_error "int x") /\
  ~ ((exists fragment,
         GetTSTree_string (fun (_ : unit) (_ : string) => @None TSTree) tt "int x" false
           = Throws (cf_parse_error fragment)) ->
     false = true).
Proof.
  split; [reflexivity|].
  intros H; discriminate (H (ex_intro _ "int x" eq_refl)).
Qed.

(** ** Collector *)

(** Induction on syntax trees, with a hypothesis for every child. *)
Fixpoint cst_rect_forall (P : cst -> Prop)
  (H : forall k s e cs, Forall P cs -> P (CNode k s e cs)) (n : cst) : P n :=
  match n with
  | CNode k s e cs =>
      H k s e cs
        ((fix go (cs : list cst) : Forall P cs :=
            match cs with
            | [] => Forall_nil P
            | c :: r => Forall_cons c (cst_rect_forall P H c) (go r)
            end) cs)
  end.

Lemma CollectCodeBlocksOfInterest_appends_preorder
  (Language : Type) (is_of_interest : Language -> TSNode -> bool) (G : Language) :
  forall root_node code_blocks,
    CollectCodeBlocksOfInterest is_of_interest G root_node code_blocks =
    app code_blocks (filter (is_of_interest G) (preorder root_node)).
Proof.
  induction root_node as [k s e cs IH] using cst_rect_forall.
  intros code_blocks; cbn [CollectCodeBlocksOfInterest preorder].
  match goal with
  | |- ?F cs ?a = app _ (filter _ (_ :: ?P cs)) =>
      assert (Hgo : forall acc, F cs acc = app acc (filter (is_of_interest G) (P cs)));
      [ clear - IH; induction IH as [|c r Hc Hr IHr]; intros acc;
        [ cbn; rewrite app_nil_r; reflexivity
        | change (F (c :: r) acc) with (F r (CollectCodeBlocksOfInterest is_of_interest G c acc));
          change (P (c :: r)) with (app (preorder c) (P r));
          rewrite IHr, Hc, filter_app, app_assoc; reflexivity ]
      | rewrite Hgo ]
  end.
  cbn [filter]; destruct (is_of_interest G (CNode k s e cs));
    [rewrite <- app_assoc|]; reflexivity.
Qed.

(** C4: the collector appends to the caller's sequence exactly the nodes of
    interest of the tree in pre-order; so two runs on the same tree and
    grammar give the same sequence, whose length from an empty sequence is
    the number of nodes of interest; the tree overload does the same from
    the root. *)
Theorem CollectCodeBlocksOfInterest_deterministic_count :
  forall (Language : Type) (is_of_interest : Language -> TSNode -> bool)
         (G : Language) (root_node : TSNode) (code_blocks : code_blocks_t),
    CollectCodeBlocksOfInterest is_of_interest G root_node code_blocks =
    app code_blocks (filter (is_of_interest G) (preorder root_node)) /\
    CollectCodeBlocksOfInterest is_of_interest G root_node [] =
    filter (is_of_interest G) (preorder root_node) /\
    List.length (CollectCodeBlocksOfInterest is_of_interest G root_node []) =
    List.length (filter (is_of_interest G) (preorder root_node)) /\
    (forall tree : TSTree,
        CollectCodeBlocksOfInterest_tree is_of_interest G (Some tree) code_blocks =
        Returns (app code_blocks (filter (is_of_interest G) (preorder (tree_root tree))))).
Proof.
  intros Language p G root_node code_blocks.
  rewrite !CollectCodeBlocksOfInterest_appends_preorder.
  split; [reflexivity|]; split; [reflexivity|]; split; [reflexivity|].
  intros tree; unfold CollectCodeBlocksOfInterest_tree; cbn.
  rewrite CollectCodeBlocksOfInterest_appends_preorder; reflexivity.
Qed.

(* ========================================================================= *)
(** * Further properties of the header *)

(** ** Reading back [TimerDiff] *)

Local Open Scope Z_scope.

Lemma digit_value_digit_char (d : Z) :
  0 <= d <= 9 -> digit_value (digit_char d) = Some d.
Proof.
  intros Hd.
  assert (d = 0 \/ d = 1 \/ d = 2 \/ d = 3 \/ d = 4 \/ d = 5 \/ d = 6 \/
          d = 7 \/ d = 8 \/ d = 9) as Hc by lia.
  repeat destruct Hc as [->|Hc]; [..|subst d]; reflexivity.
Qed.

Lemma string_append_assoc (a b c : string) :
  append (append a b) c = append a (append b c).
Proof. induction a as [|x a IH]; cbn; [reflexivity|rewrite IH; reflexivity]. Qed.

Lemma digits_aux_append (f : nat) :
  forall n acc s, append (digits_aux f n acc) s = digits_aux f n (append acc s).
Proof.
  induction f as [|f IH]; intros n acc s; cbn [digits_aux]; [reflexivity|].
  destruct (n <? 10); [reflexivity|apply IH].
Qed.

Lemma digits_aux_starts_with_digit (f : nat) :
  forall n acc, 0 <= n ->
  exists d r, 0 <= d <= 9 /\ digits_aux (S f) n acc = String (digit_char d) r.
Proof.
  induction f as [|f IH]; intros n acc Hn.
  - cbn [digits_aux]; destruct (n <? 10);
      exists (n mod 10); eexists; (split; [pose proof (Z.mod_pos_bound n 10); lia|reflexivity]).
  - destruct (Z.lt_ge_cases n 10) as [H|H].
    + rewrite digits_aux_last by lia; exists n; eexists; split; [lia|reflexivity].
    + rewrite digits_aux_step by lia; apply IH, Z.div_pos; lia.
Qed.

Lemma read_digits_digits_aux (f : nat) :
  forall n acc, 0 <= n < 10 ^ Z.of_nat f ->
  read_digits (digits_aux f n acc) 0 = read_digits acc n.
Proof.
  induction f as [|f IH]; intros n acc Hn.
  - cbn in Hn; assert (n = 0) as -> by lia; reflexivity.
  - rewrite Nat2Z.inj_succ, Z.pow_succ_r in Hn by lia.
    destruct (Z.lt_ge_cases n 10) as [H|H].
    + rewrite digits_aux_last by lia; cbn [read_digits].
      rewrite digit_value_digit_char by lia; reflexivity.
    + rewrite digits_aux_step by lia.
      rewrite IH by (split; [apply Z.div_pos|apply Z.div_lt_upper_bound]; lia).
      cbn [read_digits].
      rewrite digit_value_digit_char by (pose proof (Z.mod_pos_bound n 10); lia).
      rewrite (Z.mul_comm (n / 10) 10), <- Z.div_mod by lia; reflexivity.
Qed.

Lemma TimerDiffToTimeval_sec_bound (t : Timer) (diff_tv : timeval) :
  TimerDiffToTimeval t = Some diff_tv -> tv_sec diff_tv <= long_max.
Proof.
  unfold TimerDiffToTimeval.
  destruct (timeval2microsec (end_tv_ t)) as [e|], (timeval2microsec (start_tv_ t)) as [s|];
    try discriminate.
  unfold long_checked at 1.
  destruct ((long_min <=? e - s) && (e - s <=? long_max)) eqn:E; [|discriminate].
  intros H; inversion H; subst; cbn.
  apply andb_prop in E as [_ E]; apply Z.leb_le in E.
  pose proof long_bounds as [_ Hb].
  destruct (Z.lt_ge_cases (e - s) 0).
  - replace (e - s) with (- (s - e)) by lia.
    rewrite Z.quot_opp_l by (unfold kMicroSecs; lia).
    assert (0 <= Z.quot (s - e) kMicroSecs)
      by (apply Z.quot_pos; unfold kMicroSecs; lia); lia.
  - rewrite Z.quot_div_nonneg by (unfold kMicroSecs; lia).
    unfold long_max in *.
    apply Z.le_trans with (e - s); [apply Z.div_le_upper_bound; unfold kMicroSecs|]; lia.
Qed.

(** For a normalised non-negative difference, the string [TimerDiff]
    prints reads back as the seconds and the truncated milliseconds. *)
Theorem TimerDiff_read_back (t : Timer) (diff_tv : timeval)
  (Hdiff : TimerDiffToTimeval t = Some diff_tv)
  (Hsec : 0 <= tv_sec diff_tv) (Husec : 0 <= tv_usec diff_tv < kMicroSecs) :
  exists s, TimerDiff t = Some s /\
            read_timer_diff s = Some (tv_sec diff_tv, Z.quot (tv_usec diff_tv) 1000).
Proof.
  unfold TimerDiff; rewrite Hdiff; eexists; split; [reflexivity|].
  pose proof (TimerDiffToTimeval_sec_bound t diff_tv Hdiff) as Hmax.
  unfold kMicroSecs in Husec.
  set (m := Z.quot (tv_usec diff_tv) 1000).
  assert (Hm : 0 <= m < 1000).
  { unfold m; rewrite Z.quot_div_nonneg by lia.
    split; [apply Z.div_pos|apply Z.div_lt_upper_bound]; lia. }
  set (sec := tv_sec diff_tv) in *.
  unfold format_timeval; fold m sec.
  rewrite pad_left_three_digits by exact Hm.
  unfold print_long; rewrite (proj2 (Z.ltb_ge sec 0)) by lia.
  rewrite string_append_assoc, digits_aux_append.
  cbn [append].
  match goal with
  | |- context [digits_aux 20 sec ?acc] =>
      destruct (digits_aux_starts_with_digit 19 sec acc) as (d & r & Hd & Hr); [lia|]
  end.
  unfold read_timer_diff; rewrite Hr, digit_value_digit_char by lia; rewrite <- Hr.
  rewrite read_digits_digits_aux
    by (unfold long_max in Hmax; cbn in Hmax |- *; lia).
  cbn [read_digits].
  change (digit_value "."%char) with (@None Z); cbn -[digit_char digit_value].
  pose proof (Z.mod_pos_bound m 10 ltac:(lia)).
  pose proof (Z.mod_pos_bound (m / 10) 10 ltac:(lia)).
  assert (0 <= m / 100) by (apply Z.div_pos; lia).
  assert (m / 100 < 10) by (apply Z.div_lt_upper_bound; lia).
  rewrite !digit_value_digit_char by lia.
  cbn -[digit_char]; f_equal; f_equal.
  pose proof (Z.div_mod m 10 ltac:(lia)) as E1.
  pose proof (Z.div_mod (m / 10) 10 ltac:(lia)) as E2.
  rewrite Z.div_div in E2 by lia; change (10 * 10) with 100 in E2.
  lia.
Qed.

Lemma TimerDiff_read_back_witness :
  TimerDiffToTimeval (mkTimer (mkTimeval 10 700000) (mkTimeval 1012 207999))
    = Some (mkTimeval 1001 507999) /\
  exists s, TimerDiff (mkTimer (mkTimeval 10 700000) (mkTimeval 1012 207999)) = Some s /\
            read_timer_diff s = Some (1001, 507).
Proof.
  split; [reflexivity|].
  exact (TimerDiff_read_back (mkTimer (mkTimeval 10 700000) (mkTimeval 1012 207999))
           (mkTimeval 1001 507999) eq_refl ltac:(cbn; lia)
           ltac:(unfold kMicroSecs; cbn; lia)).
Defined.

Local Close Scope Z_scope.

(** ** Sign of the difference *)

Local Open Scope Z_scope.

Lemma quot_rem_nonneg_facts (d : Z) :
  0 <= d ->
  0 <= Z.quot d kMicroSecs /\ 0 <= Z.rem d kMicroSecs < kMicroSecs /\
  Z.quot d kMicroSecs * kMicroSecs + Z.rem d kMicroSecs = d.
Proof.
  intros Hd; unfold kMicroSecs.
  rewrite Z.quot_div_nonneg, Z.rem_mod_nonneg by lia.
  pose proof (Z.mod_pos_bound d 1000000 ltac:(lia)).
  pose proof (Z.div_mod d 1000000 ltac:(lia)).
  split; [apply Z.div_pos; lia|]; split; lia.
Qed.

(** Whatever the order of two clock readings, the difference is returned
    without failure; its seconds and microseconds add up to the difference,
    the microseconds stay strictly within one second of zero, and both
    components carry the sign of the difference (both non-negative when
    stop is not before start, both non-positive otherwise). *)
Theorem TimerDiffToTimeval_sign (t : Timer)
  (Hstart : clock_reading (start_tv_ t)) (Hstop : clock_reading (end_tv_ t)) :
  exists diff_tv,
    TimerDiffToTimeval t = Some diff_tv /\
    total_microsec diff_tv = total_microsec (end_tv_ t) - total_microsec (start_tv_ t) /\
    - kMicroSecs < tv_usec diff_tv < kMicroSecs /\
    (total_microsec (start_tv_ t) <= total_microsec (end_tv_ t) ->
       0 <= tv_sec diff_tv /\ 0 <= tv_usec diff_tv) /\
    (total_microsec (end_tv_ t) <= total_microsec (start_tv_ t) ->
       tv_sec diff_tv <= 0 /\ tv_usec diff_tv <= 0).
Proof.
  rewrite (TimerDiffToTimeval_clock_readings t Hstart Hstop).
  eexists; split; [reflexivity|]; cbn.
  unfold total_microsec; cbn.
  set (d := total_microsec (end_tv_ t) - total_microsec (start_tv_ t)).
  fold (total_microsec (end_tv_ t)) (total_microsec (start_tv_ t)); fold d.
  destruct (Z.le_ge_cases 0 d) as [Hd|Hd].
  - destruct (quot_rem_nonneg_facts d Hd) as (H1 & H2 & H3).
    unfold kMicroSecs in *; repeat split; intros; lia.
  - destruct (quot_rem_nonneg_facts (- d) ltac:(lia)) as (H1 & H2 & H3).
    set (e := - d) in *; assert (Hed : e = - d) by reflexivity; clearbody e.
    replace d with (- e) by lia.
    rewrite Z.quot_opp_l, Z.rem_opp_l by (unfold kMicroSecs; lia).
    unfold kMicroSecs in *; repeat split; intros; lia.
Qed.

Lemma TimerDiffToTimeval_sign_witness :
  clock_reading (mkTimeval 3 0) /\ clock_reading (mkTimeval 1 500000) /\
  exists diff_tv,
    TimerDiffToTimeval (mkTimer (mkTimeval 3 0) (mkTimeval 1 500000)) = Some diff_tv /\
    total_microsec diff_tv = -1500000 /\
    - kMicroSecs < tv_usec diff_tv < kMicroSecs /\
    (3000000 <= 1500000 -> 0 <= tv_sec diff_tv /\ 0 <= tv_usec diff_tv) /\
    (1500000 <= 3000000 -> tv_sec diff_tv <= 0 /\ tv_usec diff_tv <= 0).
Proof.
  assert (H1 : clock_reading (mkTimeval 3 0))
    by (unfold clock_reading, total_microsec, kMicroSecs, long_max; cbn; lia).
  assert (H2 : clock_reading (mkTimeval 1 500000))
    by (unfold clock_reading, total_microsec, kMicroSecs, long_max; cbn; lia).
  split; [exact H1|]; split; [exact H2|].
  exact (TimerDiffToTimeval_sign (mkTimer (mkTimeval 3 0) (mkTimeval 1 500000)) H1 H2).
Defined.

(** Exchanging the start and stop readings negates both components of the
    difference. *)
Theorem TimerDiffToTimeval_swap (a b : timeval)
  (Ha : clock_reading a) (Hb : clock_reading b) :
  exists diff_tv,
    TimerDiffToTimeval (mkTimer a b) = Some diff_tv /\
    TimerDiffToTimeval (mkTimer b a) =
    Some (mkTimeval (- tv_sec diff_tv) (- tv_usec diff_tv)).
Proof.
  rewrite (TimerDiffToTimeval_clock_readings (mkTimer a b) Ha Hb).
  rewrite (TimerDiffToTimeval_clock_readings (mkTimer b a) Hb Ha).
  eexists; split; [reflexivity|]; cbn.
  replace (total_microsec a - total_microsec b)
    with (- (total_microsec b - total_microsec a)) by lia.
  rewrite Z.quot_opp_l, Z.rem_opp_l by (unfold kMicroSecs; lia).
  reflexivity.
Qed.

Lemma TimerDiffToTimeval_swap_witness :
  clock_reading (mkTimeval 10 700000) /\ clock_reading (mkTimeval 12 200000) /\
  TimerDiffToTimeval (mkTimer (mkTimeval 12 200000) (mkTimeval 10 700000))
    = Some (mkTimeval (-1) (-500000)).
Proof.
  assert (H1 : clock_reading (mkTimeval 10 700000))
    by (unfold clock_reading, total_microsec, kMicroSecs, long_max; cbn; lia).
  assert (H2 : clock_reading (mkTimeval 12 200000))
    by (unfold clock_reading, total_microsec, kMicroSecs, long_max; cbn; lia).
  split; [exact H1|]; split; [exact H2|].
  destruct (TimerDiffToTimeval_swap _ _ H1 H2) as (tv & Htv & Hsw).
  rewrite Hsw; cbv in Htv; inversion Htv; reflexivity.
Defined.

(** A stop reading less than one millisecond before the start reading is
    printed as "0.000", like an empty interval: the negative sign is lost. *)
Theorem TimerDiff_negative_below_millisecond (t : Timer)
  (Hstart : clock_reading (start_tv_ t)) (Hstop : clock_reading (end_tv_ t))
  (Hneg : total_microsec (start_tv_ t) - 1000 < total_microsec (end_tv_ t)
          < total_microsec (start_tv_ t)) :
  TimerDiff t = Some "0.000".
Proof.
  unfold TimerDiff; rewrite (TimerDiffToTimeval_clock_readings t Hstart Hstop).
  set (d := total_microsec (end_tv_ t) - total_microsec (start_tv_ t)).
  assert (Hd : -1000 < d < 0) by (unfold d; lia).
  replace d with (- (- d)) by lia.
  unfold format_timeval; cbn [tv_sec tv_usec].
  rewrite Z.quot_opp_l, Z.rem_opp_l by (unfold kMicroSecs; lia).
  rewrite Z.quot_small, Z.rem_small by (unfold kMicroSecs; lia).
  rewrite Z.quot_opp_l, Z.quot_small by lia.
  reflexivity.
Qed.

Lemma TimerDiff_negative_below_millisecond_witness :
  clock_reading (mkTimeval 5 400) /\ clock_reading (mkTimeval 4 999900) /\
  TimerDiff (mkTimer (mkTimeval 5 400) (mkTimeval 4 999900)) = Some "0.000".
Proof.
  assert (H1 : clock_reading (mkTimeval 5 400))
    by (unfold clock_reading, total_microsec, kMicroSecs, long_max; cbn; lia).
  assert (H2 : clock_reading (mkTimeval 4 999900))
    by (unfold clock_reading, total_microsec, kMicroSecs, long_max; cbn; lia).
  split; [exact H1|]; split; [exact H2|].
  apply (TimerDiff_negative_below_millisecond
           (mkTimer (mkTimeval 5 400) (mkTimeval 4 999900)) H1 H2).
  unfold total_microsec, kMicroSecs; cbn; lia.
Defined.

Local Close Scope Z_scope.

(** ** Ownership transfer of ManagedTSTree *)

(** After a move construction, destroying both holders, in either order,
    deletes the moved tree exactly once. *)
Theorem ManagedTSTree_move_construct_single_delete :
  forall (p : ManagedTSTree) (log : deletion_log),
    let '(dst, src) := unique_ptr_move_construct p in
    dst = p /\ src = None /\
    snd (unique_ptr_destroy dst (snd (unique_ptr_destroy src log))) =
      app log (held_trees p) /\
    snd (unique_ptr_destroy src (snd (unique_ptr_destroy dst log))) =
      app log (held_trees p).
Proof.
  intros [tree|] log; cbn; rewrite ?app_nil_r; repeat split.
Qed.

(** A move assignment deletes the tree the destination held (if any) at
    once, leaves the source empty, and destroying both holders afterwards
    deletes the moved tree exactly once: every tree is deleted once. *)
Theorem ManagedTSTree_move_assign_deletes_each_once :
  forall (dst src : ManagedTSTree) (log : deletion_log),
    let '(dst', src', log1) := unique_ptr_move_assign dst src log in
    log1 = app log (held_trees dst) /\ dst' = src /\ src' = None /\
    snd (unique_ptr_destroy src' (snd (unique_ptr_destroy dst' log1))) =
      app (app log (held_trees dst)) (held_trees src).
Proof.
  intros [old|] [tree|] log; cbn; rewrite ?app_nil_r; repeat split.
Qed.

(** ** Exception messages *)


Lemma c_str_view_prefix (p s : string) :
  has_nul p = false -> c_str_view (append p s) = append p (c_str_view s).
Proof.
  induction p as [|c p IH]; cbn; [reflexivity|].
  intros H; apply orb_false_iff in H as [Hc Hp]; rewrite Hc, IH by exact Hp.
  reflexivity.
Qed.

Lemma string_append_nil_r (s : string) : append s "" = s.
Proof. induction s as [|c s IH]; cbn; [reflexivity|rewrite IH; reflexivity]. Qed.





(** [what()] returns [message_.c_str()]: everything from the first NUL of
    the argument on is lost, so two exceptions of one class whose arguments
    differ only after a NUL have the same [what()]. *)
Theorem what_cut_at_nul (x r1 r2 : string) (Hx : has_nul x = false) :
  what (cf_string_exception (append x (String zero r1))) = x /\
  what (cf_file_access_exception (append x (String zero r1))) =
    what (cf_file_access_exception (append x (String zero r2))) /\
  what (cf_file_access_exception (append x (String zero r1))) =
    append "File access failed: " x /\
  what (cf_parse_error (append x (String zero r1))) =
    what (cf_parse_error (append x (String zero r2))) /\
  what (cf_parse_error (append x (String zero r1))) =
    append "Parse error in expression:" x /\
  what (cf_unexpected_situation (append x (String zero r1))) =
    what (cf_unexpected_situation (append x (String zero r2))) /\
  what (cf_unexpected_situation (append x (String zero r1))) =
    append "Assert failed: " x.
Proof.
  assert (Hcut : forall r, c_str_view (append x (String zero r)) = x).
  { intros r; rewrite c_str_view_prefix by exact Hx; cbn; apply string_append_nil_r. }
  assert (Hp : forall p r, has_nul p = false ->
            c_str_view (append p (append x (String zero r))) = append p x).
  { intros p r Hn; rewrite (c_str_view_prefix p _ Hn), Hcut; reflexivity. }
  unfold what, message_.
  rewrite Hcut, !(Hp "File access failed: "), !(Hp "Parse error in expression:"),
    !(Hp "Assert failed: ") by reflexivity.
  repeat split.
Qed.

Lemma what_cut_at_nul_witness :
  has_nul "a" = false /\
  what (cf_parse_error (append "a" (String zero "b"))) =
    what (cf_parse_error (append "a" (String zero "c"))).
Proof.
  split; [reflexivity|].
  exact (proj1 (proj2 (proj2 (proj2 (what_cut_at_nul "a" "b" "c" eq_refl))))).
Defined.

(** ** Range of the timer arithmetic *)

Local Open Scope Z_scope.

(** A timestamp whose seconds exceed [long_max / 10^6] (9223372036854 s,
    about the year 294000) makes [tv_sec * kMicroSecs] overflow a [long]:
    the difference is undefined behaviour, for the stop and for the start
    timestamp alike. *)
Theorem TimerDiffToTimeval_overflow (t : Timer)
  (Hbig : 9223372036855 <= tv_sec (end_tv_ t) \/ 9223372036855 <= tv_sec (start_tv_ t)) :
  TimerDiffToTimeval t = None.
Proof.
  assert (Hover : forall tv, 9223372036855 <= tv_sec tv -> timeval2microsec tv = None).
  { intros tv Htv; unfold timeval2microsec, long_checked.
    replace (tv_sec tv * kMicroSecs <=? long_max) with false
      by (symmetry; apply Z.leb_gt; unfold kMicroSecs, long_max; cbn; lia).
    rewrite andb_false_r; reflexivity. }
  unfold TimerDiffToTimeval.
  destruct Hbig as [H|H]; rewrite (Hover _ H);
    [reflexivity|destruct (timeval2microsec (end_tv_ t)); reflexivity].
Qed.

Lemma TimerDiffToTimeval_overflow_witness :
  TimerDiffToTimeval (mkTimer (mkTimeval 0 0) (mkTimeval 9223372036855 0)) = None.
Proof.
  apply (TimerDiffToTimeval_overflow (mkTimer (mkTimeval 0 0) (mkTimeval 9223372036855 0))).
  left; cbn; lia.
Defined.

Local Close Scope Z_scope.
